(** * svg2gcode: vector geometry and toolpath pipeline

    A shallow embedding of [geometry.go] and [svg2gcode.go] and the
    properties of the pipeline: transform algebra, curve flattening,
    path tokenising, polygon offsetting and G-code emission.

    The Go code computes on [float64].  The embedding is written once over a
    signature of the float64 operations the code uses and is instantiated
    twice: by IEEE binary64 (Rocq's primitive floats), where the functions
    run, and by the real numbers, where the exact-arithmetic laws hold. *)

From Stdlib Require Import Reals Lra Lia ZArith String Ascii.
From Stdlib Require Import Floats.
From stdpp Require Import base list option sorting.

(** ** The float64 operations used by the program *)

Class Float64 (K : Type) := {
  fzero : K;                  (* 0 *)
  fone : K;                   (* 1 *)
  ftwo : K;                   (* 2.0 *)
  fhalf : K;                  (* 0.5 *)
  ftenth : K;                 (* 0.1 *)
  feps : K;                   (* 1e-9 *)
  fadd : K -> K -> K;
  fsub : K -> K -> K;
  fmul : K -> K -> K;
  fdiv : K -> K -> K;
  fneg : K -> K;
  fabs : K -> K;              (* math.Abs *)
  hypot : K -> K -> K;        (* math.Hypot *)
  feqb : K -> K -> bool;      (* == *)
  fltb : K -> K -> bool;      (* <  *)
  fleb : K -> K -> bool       (* <= *)
}.

Declare Scope f64_scope.
Delimit Scope f64_scope with f64.
Infix "+" := fadd : f64_scope.
Infix "-" := fsub : f64_scope.
Infix "*" := fmul : f64_scope.
Infix "/" := fdiv : f64_scope.
Notation "- x" := (fneg x) : f64_scope.
Infix "==?" := feqb (at level 70, no associativity) : f64_scope.
Infix "<?" := fltb : f64_scope.
Infix "<=?" := fleb : f64_scope.
(* Go's [a > b] and [a >= b] are [b < a] and [b <= a], also on NaN. *)
Notation "x >? y" := (fltb y x) (at level 70, no associativity, only parsing) : f64_scope.
Notation "x >=? y" := (fleb y x) (at level 70, no associativity, only parsing) : f64_scope.

(** *** IEEE binary64 *)

Module Binary64.

(** [math.Hypot] of the Go library (its portable definition). *)
Definition go_hypot (p q : float) : float :=
  let p := PrimFloat.abs p in
  let q := PrimFloat.abs q in
  if PrimFloat.eqb p infinity || PrimFloat.eqb q infinity then infinity
  else if PrimFloat.is_nan p || PrimFloat.is_nan q then nan
  else
    let '(p, q) := if PrimFloat.ltb p q then (q, p) else (p, q) in
    if PrimFloat.eqb p 0 then 0%float
    else
      let q := PrimFloat.div q p in
      PrimFloat.mul p (PrimFloat.sqrt (PrimFloat.add 1 (PrimFloat.mul q q))).

#[global] Instance ops : Float64 float := {|
  fzero := 0%float;
  fone := 1%float;
  ftwo := 2%float;
  fhalf := 0.5%float;
  ftenth := PrimFloat.div 1 10;
  feps := PrimFloat.div 1 1000000000;
  fadd := PrimFloat.add;
  fsub := PrimFloat.sub;
  fmul := PrimFloat.mul;
  fdiv := PrimFloat.div;
  fneg := PrimFloat.opp;
  fabs := PrimFloat.abs;
  hypot := go_hypot;
  feqb := PrimFloat.eqb;
  fltb := PrimFloat.ltb;
  fleb := PrimFloat.leb
|}.

End Binary64.

(** *** Exact real arithmetic *)

Module Exact.

Definition Reqb (x y : R) : bool := if Req_dec_T x y then true else false.
Definition Rltb (x y : R) : bool := if Rlt_dec x y then true else false.
Definition Rleb (x y : R) : bool := if Rle_dec x y then true else false.

#[global] Instance ops : Float64 R := {|
  fzero := 0%R;
  fone := 1%R;
  ftwo := 2%R;
  fhalf := (/ 2)%R;
  ftenth := (/ 10)%R;
  feps := (/ 1000000000)%R;
  fadd := Rplus;
  fsub := Rminus;
  fmul := Rmult;
  fdiv := Rdiv;
  fneg := Ropp;
  fabs := Rabs;
  hypot := fun x y : R => R_sqrt.sqrt (x * x + y * y)%R;
  feqb := Reqb;
  fltb := Rltb;
  fleb := Rleb
|}.

End Exact.

(** ** geometry.go *)

Record Point (K : Type) := mkPoint { X : K; Y : K }.
Arguments mkPoint {K} _ _.
Arguments X {K} _.
Arguments Y {K} _.

Record Transform (K : Type) := mkTransform {
  A : K; B : K; C : K; D : K; E : K; F : K   (* 2x3 matrix: [ A C E ; B D F ] *)
}.
Arguments mkTransform {K} _ _ _ _ _ _.
Arguments A {K} _.
Arguments B {K} _.
Arguments C {K} _.
Arguments D {K} _.
Arguments E {K} _.
Arguments F {K} _.

Section Geometry.
Context {K : Type} `{Float64 K}.
Local Open Scope f64_scope.

Definition identityTransform : Transform K :=
  mkTransform fone fzero fzero fone fzero fzero.

(* t ∘ u (apply u, then t) *)
Definition Mul (t u : Transform K) : Transform K :=
  {| A := A t * A u + C t * B u;
     B := B t * A u + D t * B u;
     C := A t * C u + C t * D u;
     D := B t * C u + D t * D u;
     E := A t * E u + C t * F u + E t;
     F := B t * E u + D t * F u + F t |}.

Definition Apply (t : Transform K) (p : Point K) : Point K :=
  {| X := A t * X p + C t * Y p + E t;
     Y := B t * X p + D t * Y p + F t |}.

Definition lerp (a b : Point K) (t : K) : Point K :=
  {| X := X a + (X b - X a) * t;
     Y := Y a + (Y b - Y a) * t |}.

Definition distPointToLine (p a b : Point K) : K :=
  let dx := X b - X a in
  let dy := Y b - Y a in
  if (dx ==? fzero) && (dy ==? fzero) then
    (* a and b are the same *)
    hypot (X p - X a) (Y p - Y a)
  else
    let t := ((X p - X a) * dx + (Y p - Y a) * dy) / (dx * dx + dy * dy) in
    let px := X a + t * dx in
    let py := Y a + t * dy in
    hypot (X p - px) (Y p - py).

(** The recursion of [flattenCubicBezier] has no depth bound in the source;
    [fuel] bounds the recursion depth here and [None] means the bound was
    reached.  [out] is the slice the points are appended to. *)
Fixpoint flattenCubicBezier (fuel : nat) (p0 p1 p2 p3 : Point K)
    (flatness : K) (out : list (Point K)) : option (list (Point K)) :=
  match fuel with
  | O => None
  | S fuel' =>
      let d1 := distPointToLine p1 p0 p3 in
      let d2 := distPointToLine p2 p0 p3 in
      if (d1 <=? flatness) && (d2 <=? flatness) then
        Some (out ++ [p3])
      else
        let m01 := lerp p0 p1 fhalf in
        let m12 := lerp p1 p2 fhalf in
        let m23 := lerp p2 p3 fhalf in
        let m012 := lerp m01 m12 fhalf in
        let m123 := lerp m12 m23 fhalf in
        let m0123 := lerp m012 m123 fhalf in
        out1 ← flattenCubicBezier fuel' p0 m01 m012 m0123 flatness out;
        flattenCubicBezier fuel' m0123 m123 m23 p3 flatness out1
  end.

Definition cross (a b : Point K) : K := X a * Y b - Y a * X b.

Definition almostEqualPoint (a b : Point K) : bool :=
  (fabs (X a - X b) <? feps) && (fabs (Y a - Y b) <? feps).

End Geometry.

(** ** svg2gcode.go: tokenising path data

    Path data is modelled as a string of ASCII characters, one [ascii] per
    rune of the Go string. *)

Section Tokenizer.
Local Open Scope string_scope.

(** [strings.ContainsRune] *)
Fixpoint ContainsRune (s : string) (r : ascii) : bool :=
  match s with
  | EmptyString => false
  | String c s' => if Ascii.eqb c r then true else ContainsRune s' r
  end.

(** The white space [strings.Fields] splits around (ASCII part of
    [unicode.IsSpace]): tab, line feed, vertical tab, form feed, carriage
    return and space. *)
Definition isSpace (c : ascii) : bool :=
  let n := nat_of_ascii c in
  ((9 <=? n) && (n <=? 13) || (n =? 32))%nat.

(** [strings.Fields]: the maximal runs of non-space characters, in order.
    [cur] is the field being read. *)
Fixpoint FieldsFrom (s cur : string) : list string :=
  match s with
  | EmptyString => if String.eqb cur "" then [] else [cur]
  | String c s' =>
      if isSpace c then
        if String.eqb cur "" then FieldsFrom s' "" else cur :: FieldsFrom s' ""
      else FieldsFrom s' (cur ++ String c "")
  end.

Definition Fields (s : string) : list string := FieldsFrom s "".

Definition isCommand (tok : string) : bool :=
  match tok with
  | String c EmptyString =>
      match c with
      | "C" | "c" | "M" | "m" | "L" | "l" | "H" | "h" | "V" | "v" | "Z" | "z" => true
      | _ => false
      end%char
  | _ => false
  end.

(** The loop of [tokenizePathData] over the runes of [d]; [b] is the
    [strings.Builder]. *)
Fixpoint tokenizeLoop (commands : string) (d : string) (b : string) : string :=
  match d with
  | EmptyString => b
  | String r d' =>
      if ContainsRune commands r then
        tokenizeLoop commands d' (b ++ " " ++ String r "" ++ " ")
      else if Ascii.eqb r ","%char then
        tokenizeLoop commands d' (b ++ " ")
      else
        tokenizeLoop commands d' (b ++ String r "")
  end.

Definition tokenizePathData (d : string) : list string :=
  (* Insert spaces around command letters and replace commas with spaces *)
  let commands := "MmLlHhVvZz" in
  Fields (tokenizeLoop commands d "").

(** [hasUnsupportedCommands]: whether [d] has a letter that is not one of
    the supported commands.  (The [strings.TrimSpace] before the loop removes
    no letter.) *)
Fixpoint hasUnsupportedCommands (d : string) : bool :=
  match d with
  | EmptyString => false
  | String r d' =>
      let n := nat_of_ascii r in
      if ((65 <=? n) && (n <=? 90) || (97 <=? n) && (n <=? 122))%nat then
        (* SVG commands are alphabetic characters *)
        match r with
        | "M" | "m" | "L" | "l" | "H" | "h" | "V" | "v" | "Z" | "z" | "C" | "c" =>
            (* allowed *)
            hasUnsupportedCommands d'
        | _ => true (* unsupported command *)
        end%char
      else hasUnsupportedCommands d'
  end.

End Tokenizer.

(** ** svg2gcode.go: slices, loops and panics

    Go panics on an index out of range.  A computation that may panic returns
    an [option], [None] being the panic.  Indices are Go [int]s, here [Z]. *)

Definition index {T : Type} (l : list T) (i : Z) : option T :=
  if (i <? 0)%Z then None else l !! Z.to_nat i.

Definition store {T : Type} (l : list T) (i : Z) (v : T) : option (list T) :=
  if ((0 <=? i) && (i <? Z.of_nat (length l)))%Z
  then Some (<[Z.to_nat i := v]> l) else None.

(** [for i := from; ...; i++], [count] iterations left, on the loop state [s]. *)
Fixpoint forLoop {S : Type} (count : nat) (i : Z)
    (body : Z -> S -> option S) (s : S) : option S :=
  match count with
  | O => Some s
  | Datatypes.S count' => s' ← body i s; forLoop count' (i + 1)%Z body s'
  end.

(** [for i := 0; i < n; i++] *)
Definition forRange {S : Type} (n : Z) (body : Z -> S -> option S) (s : S) : option S :=
  forLoop (Z.to_nat n) 0%Z body s.

(** ** svg2gcode.go: polygon offsetting *)

Section Offset.
Context {K : Type} `{Float64 K}.
Local Open Scope f64_scope.

(** The loop that removes a duplicate closing point: [rest] are the points
    from index [i] on, [poly] those kept so far; the loop breaks at the last
    index when that point almost equals [points[0]]. *)
Fixpoint dropClosing (points : list (Point K)) (n0 i : Z)
    (rest poly : list (Point K)) : option (list (Point K)) :=
  match rest with
  | [] => Some poly
  | p :: rest' =>
      if (i =? n0 - 1)%Z then
        first ← index points 0;
        if almostEqualPoint p first then Some poly
        else dropClosing points n0 (i + 1) rest' (poly ++ [p])
      else dropClosing points n0 (i + 1) rest' (poly ++ [p])
  end.

(** Signed area to determine orientation (before the halving). *)
Definition areaLoop (poly : list (Point K)) (n : Z) : option K :=
  forRange n (fun i area =>
    let j := Z.rem (i + 1) n in
    pi ← index poly i;
    pj ← index poly j;
    Some (area + (X pi * Y pj - X pj * Y pi))) fzero.

(** The direction [{ex, ey}] of the edge from [p0] to [p1]. *)
Definition edgeDir (p0 p1 : Point K) : Point K :=
  let ex := X p1 - X p0 in
  let ey := Y p1 - Y p0 in
  mkPoint ex ey.

(** The unit normal [nUse] chosen for the edge from [p0] to [p1]: towards the
    interior for mode "inside", away from it otherwise. *)
Definition edgeNormal (p0 p1 : Point K) (area : K) (mode : string) : Point K :=
  let ex := X p1 - X p0 in
  let ey := Y p1 - Y p0 in
  let length := hypot ex ey in
  let length := if length ==? fzero then fone else length in
  let nIn :=
    if area >? fzero then
      (* CCW polygon: interior is to the left of edges *)
      mkPoint (- ey / length) (ex / length)
    else
      (* CW polygon: interior is to the right *)
      mkPoint (ey / length) (- ex / length) in
  if String.eqb mode "inside" then nIn
  else (* "outside" *) mkPoint (- X nIn) (- Y nIn).

(** The loop that fills [dirs] and [norms], one entry per edge. *)
Definition edgeLoop (poly : list (Point K)) (n : Z) (area : K) (mode : string)
    : option (list (Point K) * list (Point K)) :=
  let zero := mkPoint fzero fzero in
  forRange n (fun j '(dirs, norms) =>
    p0 ← index poly j;
    p1 ← index poly (Z.rem (j + 1) n);
    dirs ← store dirs j (edgeDir p0 p1);
    norms ← store norms j (edgeNormal p0 p1 area mode);
    Some (dirs, norms))
    (replicate (Z.to_nat n) zero, replicate (Z.to_nat n) zero).

(** The start point of an edge's offset line: [p] moved along the edge's
    normal [nv] by [delta]. *)
Definition offsetStart (p nv : Point K) (delta : K) : Point K :=
  mkPoint (X p + X nv * delta) (Y p + Y nv * delta).

(** The offset vertex where the edge before ([pPrev], [e0], [n0v]) meets the
    edge after ([pCur], [e1], [n1v]): the intersection of the two offset
    lines, or [q1] when the edges are nearly parallel. *)
Definition offsetVertex (pPrev e0 n0v pCur e1 n1v : Point K) (delta : K) : Point K :=
  let q0 := offsetStart pPrev n0v delta in
  let q1 := offsetStart pCur n1v delta in
  let denom := cross e0 e1 in
  if fabs denom <? feps then
    (* Nearly parallel; just take the second offset point *)
    q1
  else
    let t := - cross (mkPoint (X q0 - X q1) (Y q0 - Y q1)) e1 / denom in
    let ix := X q0 + X e0 * t in
    let iy := Y q0 + Y e0 * t in
    mkPoint ix iy.

(** One turn of the loop over the vertices: [result] gets the offset vertex
    of vertex [i]. *)
Definition vertexStep (poly dirs norms : list (Point K)) (n : Z) (delta : K)
    (i : Z) (result : list (Point K)) : option (list (Point K)) :=
  let prev := Z.rem (i - 1 + n) n in
  let cur := i in
  pPrev ← index poly prev;
  e0 ← index dirs prev;
  n0v ← index norms prev;
  pCur ← index poly cur;
  e1 ← index dirs cur;
  n1v ← index norms cur;
  Some (result ++ [offsetVertex pPrev e0 n0v pCur e1 n1v delta]).

Definition offsetPolygon (points : list (Point K)) (delta : K) (mode : string)
    : option (list (Point K)) :=
  if (delta ==? fzero) || (Z.of_nat (length points) <? 3)%Z then
    (* Nothing to do *)
    Some points
  else
    (* Remove duplicate closing point if present *)
    let n0 := Z.of_nat (length points) in
    poly ← dropClosing points n0 0 points [];
    let n := Z.of_nat (length poly) in
    if (n <? 3)%Z then Some poly
    else
      area ← areaLoop poly n;
      let area := area * fhalf in
      if fabs area <? feps then
        (* Degenerate; bail out *)
        Some poly
      else
        '(dirs, norms) ← edgeLoop poly n area mode;
        result ← forRange n (vertexStep poly dirs norms n delta) [];
        (* Close polygon *)
        match result with
        | [] => Some result
        | r0 :: _ => Some (result ++ [r0])
        end.

End Offset.

(** ** svg2gcode.go: G-code emission *)

Record Path (K : Type) := mkPath {
  Points : list (Point K);
  Closed : bool;
  Stroke : string
}.
Arguments mkPath {K} _ _ _.
Arguments Points {K} _.
Arguments Closed {K} _.
Arguments Stroke {K} _.

Record Config (K : Type) := mkConfig {
  SafeZ : K;
  CutDepth : K;
  StepDown : K;
  CutFeed : K;
  PlungeFeed : K;
  Scale : K;
  ToolDia : K;
  Compensation : string;       (* "none", "inside", "outside" *)
  ConstructionColor : string;
  SvgWidth : K;
  SvgHeight : K
}.
Arguments mkConfig {K} _ _ _ _ _ _ _ _ _ _ _.
Arguments SafeZ {K} _.
Arguments CutDepth {K} _.
Arguments StepDown {K} _.
Arguments CutFeed {K} _.
Arguments PlungeFeed {K} _.
Arguments Scale {K} _.
Arguments ToolDia {K} _.
Arguments Compensation {K} _.
Arguments ConstructionColor {K} _.
Arguments SvgWidth {K} _.
Arguments SvgHeight {K} _.

(** The lines [writeGcode] prints, each with the values it formats. *)
Inductive Line (K : Type) : Type :=
| Banner                                   (* (Generated by svg2gcode) *)
| UnitsMM                                  (* G21  (units in mm) *)
| AbsoluteCoords                           (* G90  (absolute coordinates) *)
| RapidZ (z : K)                           (* G0 Z%.3f *)
| RapidXY (x y : K)                        (* G0 X%.3f Y%.3f *)
| PlungeZ (z f : K)                        (* G1 Z%.3f F%.3f *)
| CutXY (x y f : K)                        (* G1 X%.3f Y%.3f F%.3f *)
| PathComment (idx : Z) (stroke : string)  (* ; Path %d stroke=%q *)
| SpindleOff                               (* M5  (spindle off, if relevant) *)
| ProgramEnd.                              (* M2  (program end) *)
Arguments Banner {K}.
Arguments UnitsMM {K}.
Arguments AbsoluteCoords {K}.
Arguments RapidZ {K} _.
Arguments RapidXY {K} _ _.
Arguments PlungeZ {K} _ _.
Arguments CutXY {K} _ _ _.
Arguments PathComment {K} _ _.
Arguments SpindleOff {K}.
Arguments ProgramEnd {K}.

(** A motion instruction is a G0 or a G1 line. *)
Definition isMotion {K : Type} (l : Line K) : bool :=
  match l with
  | RapidZ _ | RapidXY _ _ | PlungeZ _ _ | CutXY _ _ _ => true
  | _ => false
  end.

Definition plungeDepth {K : Type} (l : Line K) : option K :=
  match l with
  | PlungeZ z _ => Some z
  | _ => None
  end.

(** How a call of [writeGcode] stands: it returned ([nil] error or the error
    of a non-negative cut depth), it panicked, or it is still in a depth
    loop after the number of passes allowed to it. *)
Inductive Outcome (K : Type) : Type :=
| Returned (err : option K)    (* [Some z]: "cut depth (cutz) must be negative, got z" *)
| Panicked
| Running.
Arguments Returned {K} _.
Arguments Panicked {K}.
Arguments Running {K}.

Section Emitter.
Context {K : Type} `{Float64 K}.
Local Open Scope f64_scope.

Definition writePoint (pt : Point K) (cfg : Config K) : K * K :=
  let x := X pt * Scale cfg in
  let y := (SvgHeight cfg - Y pt) * Scale cfg in
  (x, y).

(** The cutter compensation loop of [writeGcode]. *)
Fixpoint compensate (paths : list (Path K)) (radiusSVG : K) (mode : string)
    (compPaths : list (Path K)) : option (list (Path K)) :=
  match paths with
  | [] => Some compPaths
  | p :: paths' =>
      if negb (Closed p) then
        (* leave open paths as-is *)
        compensate paths' radiusSVG mode (compPaths ++ [p])
      else
        offsetPts ← offsetPolygon (Points p) radiusSVG mode;
        if (Z.of_nat (length offsetPts) <? 2)%Z then
          (* degenerate, skip *)
          compensate paths' radiusSVG mode compPaths
        else
          compensate paths' radiusSVG mode
            (compPaths ++ [mkPath offsetPts true (Stroke p)])
  end.

(** The cuts of one pass: [for i := 1; i < len(p.Points); i++]. *)
Definition cutLines (cfg : Config K) (points : list (Point K)) : list (Line K) :=
  (fun pt => let '(x, y) := writePoint pt cfg in CutXY x y (CutFeed cfg))
    <$> drop 1 points.

(** The depth loop [for { ... }] of one path, entered with the loop
    variable [z]; at most [fuel] passes are run.  The result is the lines
    printed and whether the loop was left by its [break]. *)
Fixpoint depthLoop (fuel : nat) (cfg : Config K) (targetZ step : K)
    (points : list (Point K)) (x0 y0 : K) (z : K) : list (Line K) * bool :=
  match fuel with
  | O => ([], false)
  | S fuel' =>
      let nextZ := z - step in
      let nextZ := if nextZ <? targetZ then targetZ else nextZ in
      let pass := PlungeZ nextZ (PlungeFeed cfg) :: cutLines cfg points in
      if nextZ <=? targetZ then (pass, true)
      else
        let z := SafeZ cfg in
        let '(rest, broke) := depthLoop fuel' cfg targetZ step points x0 y0 z in
        (pass ++ [RapidZ (SafeZ cfg); RapidXY x0 y0] ++ rest, broke)
  end.

(** [for idx, p := range paths], from index [idx] on. *)
Fixpoint pathLoop (fuel : nat) (cfg : Config K) (targetZ step : K)
    (idx : Z) (paths : list (Path K)) : list (Line K) * bool :=
  match paths with
  | [] => ([], true)
  | p :: paths' =>
      match Points p with
      | [] => pathLoop fuel cfg targetZ step (idx + 1) paths'
      | first :: _ =>
          let '(x0, y0) := writePoint first cfg in
          let intro := [PathComment (idx + 1) (Stroke p);
                       RapidXY x0 y0; RapidZ (SafeZ cfg)] in
          let z := SafeZ cfg in
          let '(passes, broke) :=
            depthLoop fuel cfg targetZ step (Points p) x0 y0 z in
          if broke then
            let '(rest, finished) := pathLoop fuel cfg targetZ step (idx + 1) paths' in
            (intro ++ passes ++ [RapidZ (SafeZ cfg)] ++ rest, finished)
          else (intro ++ passes, false)
      end
  end.

(** [writeGcode]: the lines written to [w] and how the call stands, each
    depth loop running at most [fuel] passes. *)
Definition writeGcode (fuel : nat) (paths : list (Path K)) (cfg : Config K)
    : list (Line K) * Outcome K :=
  let w := [Banner; UnitsMM; AbsoluteCoords; RapidZ (SafeZ cfg)] in
  if CutDepth cfg >=? fzero then (w, Returned (Some (CutDepth cfg)))
  else
    let targetZ := CutDepth cfg in
    let step := StepDown cfg in
    let step := if step <=? fzero then fabs (targetZ - SafeZ cfg) else step in
    let step := fabs step in
    let compPaths :=
      if negb (String.eqb (Compensation cfg) "none") && (ToolDia cfg >? fzero) then
        (* tool radius in SVG units *)
        let radiusMM := ToolDia cfg / ftwo in
        let radiusSVG := radiusMM / Scale cfg in
        compensate paths radiusSVG (Compensation cfg) []
      else Some paths in
    match compPaths with
    | None => (w, Panicked)
    | Some paths =>
        let '(body, finished) := pathLoop fuel cfg targetZ step 0 paths in
        if finished then (w ++ body ++ [SpindleOff; ProgramEnd], Returned None)
        else (w ++ body, Running)
    end.

End Emitter.



(** ** Notions the properties are stated with *)

Section Notions.
Context {K : Type} `{Float64 K}.
Local Open Scope f64_scope.

(** The depth the first pass of a depth loop plunges to, from the safe
    height: the [nextZ] of the first turn. *)
Definition firstPlunge (cfg : Config K) (targetZ step : K) : K :=
  let nextZ := SafeZ cfg - step in
  if nextZ <? targetZ then targetZ else nextZ.

(** Two polylines are identical within epsilon: as many points, and each
    point almost equal to the one at its place. *)
Fixpoint samePolyline (ps qs : list (Point K)) : bool :=
  match ps, qs with
  | [], [] => true
  | p :: ps', q :: qs' => almostEqualPoint p q && samePolyline ps' qs'
  | _, _ => false
  end.

(** The input without its duplicated closing point: the last point is left
    out when it almost equals the first. *)
Definition normalized (points : list (Point K)) : list (Point K) :=
  match points, list.last points with
  | first :: _, Some p =>
      if almostEqualPoint p first then take (length points - 1) points
      else points
  | _, _ => points
  end.

(** What the loop over [rest] keeps of it: all of it but a last point that
    almost equals [first]. *)
Definition keptOf (first : Point K) (rest : list (Point K)) : list (Point K) :=
  match list.last rest with
  | Some p => if almostEqualPoint p first then take (length rest - 1) rest else rest
  | None => rest
  end.

(** [offsetPolygon points delta] gets as far as offsetting: [delta] is not
    zero, [poly], the points left after the closing point is dropped, are at
    least 3, and the absolute value of their signed area [area] is not below
    epsilon. *)
Definition Offsetting (points : list (Point K)) (delta : K)
    (poly : list (Point K)) (area : K) : Prop :=
  (delta ==? fzero) = false /\
  dropClosing points (Z.of_nat (length points)) 0 points [] = Some poly /\
  3 <= length poly /\
  (exists a, areaLoop poly (Z.of_nat (length poly)) = Some a /\ area = a * fhalf) /\
  (fabs area <? feps) = false.

(** [v] is the offset vertex of vertex [i] of [poly]: [offsetVertex] on the
    vertex before, the vertex itself and the vertex after, with the
    directions and chosen normals of the two edges that meet at [i]. *)
Definition vertexOf (poly : list (Point K)) (area : K) (mode : string)
    (delta : K) (i : nat) (v : Point K) : Prop :=
  let n := length poly in
  exists pPrev pCur pNext,
    poly !! ((i + n - 1) mod n)%nat = Some pPrev /\
    poly !! i = Some pCur /\
    poly !! ((i + 1) mod n)%nat = Some pNext /\
    v = offsetVertex pPrev (edgeDir pPrev pCur) (edgeNormal pPrev pCur area mode)
                     pCur (edgeDir pCur pNext) (edgeNormal pCur pNext area mode)
                     delta.

End Notions.

(** ** The bend of a control polygon, over the reals *)




(** ** svg2gcode.go: colours and diagnostics

    Strings are ASCII here as well: [strings.ToLower] and
    [strings.TrimSpace] are modelled on ASCII letters and ASCII white
    space. *)

Section Colours.
Local Open Scope string_scope.

Definition toLowerRune (c : ascii) : ascii :=
  let n := nat_of_ascii c in
  if ((65 <=? n) && (n <=? 90))%nat then ascii_of_nat (n + 32) else c.

(** [strings.ToLower] *)
Fixpoint ToLower (s : string) : string :=
  match s with
  | EmptyString => EmptyString
  | String c s' => String (toLowerRune c) (ToLower s')
  end.

Fixpoint trimLeft (s : string) : string :=
  match s with
  | EmptyString => EmptyString
  | String c s' => if isSpace c then trimLeft s' else s
  end.

Fixpoint trimRight (s : string) : string :=
  match s with
  | EmptyString => EmptyString
  | String c s' =>
      match trimRight s' with
      | EmptyString => if isSpace c then EmptyString else String c EmptyString
      | r => String c r
      end
  end.

(** [strings.TrimSpace] *)
Definition TrimSpace (s : string) : string := trimRight (trimLeft s).

(** [strings.HasPrefix] *)
Fixpoint HasPrefix (s prefix : string) : bool :=
  match prefix, s with
  | EmptyString, _ => true
  | String p prefix', String c s' => Ascii.eqb c p && HasPrefix s' prefix'
  | String _ _, EmptyString => false
  end.





Definition normalizeColor (c : string) : string :=
  let s := TrimSpace (ToLower c) in
  if String.eqb s "" then ""
  else if negb (HasPrefix s "#") then "#" ++ s
  else s.



(** [truncate]: [s[:n]] panics when [n] is negative. *)
Definition truncate (s : string) (n : Z) : option string :=
  if (Z.of_nat (String.length s) <=? n)%Z then Some s
  else if (n <? 0)%Z then None
  else Some (String.substring 0 (Z.to_nat n) s ++ "...").

End Colours.

(** ** svg2gcode.go: the path interpreter

    [strconv.ParseFloat] is a parameter: for a token it gives the value and
    whether the error is not nil. *)

Inductive ParseError : Type :=
| ErrStart                          (* path data must start with a command (M/m) *)
| ErrOddCoords                      (* odd number of coordinates after M/L *)
| ErrPair (a b : string)            (* invalid coordinate pair %q,%q *)
| ErrH (a : string)                 (* invalid H coordinate %q *)
| ErrV (a : string)                 (* invalid V coordinate %q *)
| ErrIncompleteC                    (* incomplete C/c command; need 6 numbers *)
| ErrC (a : string)                 (* invalid C coordinates near %q *)
| ErrUnsupported (cmd : ascii).     (* unsupported path command %q *)

(** What a call of [parseSimplePath] comes to: the points and the closed
    flag, an error, a curve whose flattening is deeper than the depth
    allowed, or a loop that has turns left after as many turns as there are
    tokens. *)
Inductive Parsed (K : Type) : Type :=
| ParseOk (pts : list (Point K)) (closed : bool)
| ParseErr (e : ParseError)
| ParseDeep
| ParseStuck.
Arguments ParseOk {K} _ _.
Arguments ParseErr {K} _.
Arguments ParseDeep {K}.
Arguments ParseStuck {K}.

(** The variables of the loop: [pts], [cur], [start], [cmd] (rune 0 before
    the first command) and [closed]. *)
Record PathState (K : Type) := mkPathState {
  st_pts : list (Point K);
  st_cur : Point K;
  st_start : Point K;
  st_cmd : ascii;
  st_closed : bool
}.
Arguments mkPathState {K} _ _ _ _ _.
Arguments st_pts {K} _.
Arguments st_cur {K} _.
Arguments st_start {K} _.
Arguments st_cmd {K} _.
Arguments st_closed {K} _.

(** One turn of the loop over the groups of a curve command. *)
Inductive CurveEnd (K : Type) : Type :=
| CurveBreak (st : PathState K) (rest : list string)
| CurveErr (e : ParseError)
| CurveDeep.
Arguments CurveBreak {K} _ _.
Arguments CurveErr {K} _.
Arguments CurveDeep {K}.

Section Interpreter.
Context {K : Type} `{Float64 K}.
Variable ParseFloat : string -> K * bool.
Local Open Scope f64_scope.

(** [tok[0]] *)
Definition firstRune (tok : string) : ascii :=
  match tok with
  | String c _ => c
  | EmptyString => Ascii.zero
  end.

(** [cur = p; if len(pts) == 0 { start = cur }; pts = append(pts, cur)] *)
Definition addPoint (st : PathState K) (p : Point K) : PathState K :=
  {| st_pts := st_pts st ++ [p];
     st_cur := p;
     st_start := match st_pts st with [] => p | _ => st_start st end;
     st_cmd := st_cmd st;
     st_closed := st_closed st |}.

Definition withCmd (st : PathState K) (cmd : ascii) : PathState K :=
  {| st_pts := st_pts st; st_cur := st_cur st; st_start := st_start st;
     st_cmd := cmd; st_closed := st_closed st |}.

Definition withCur (st : PathState K) (p : Point K) : PathState K :=
  {| st_pts := st_pts st; st_cur := p; st_start := st_start st;
     st_cmd := st_cmd st; st_closed := st_closed st |}.

(** [Z]/[z]: [if len(pts) > 0 { pts = append(pts, start); closed = true }] *)
Definition closePath (st : PathState K) : PathState K :=
  match st_pts st with
  | [] => st
  | _ => {| st_pts := st_pts st ++ [st_start st]; st_cur := st_cur st;
            st_start := st_start st; st_cmd := st_cmd st; st_closed := true |}
  end.

(** The inner loop of case C/c; [rest] are the tokens from index [i] on.
    [depth] bounds the recursion of the flattener. *)
Fixpoint curveLoop (depth : nat) (st : PathState K) (rest : list string)
    : CurveEnd K :=
  match rest with
  | t0 :: t1 :: t2 :: t3 :: t4 :: t5 :: rest' =>
      (* If next token is a command, break so outer loop can handle it *)
      if isCommand t0 then CurveBreak st rest
      else
        let '(x1, err1) := ParseFloat t0 in
        let '(y1, err2) := ParseFloat t1 in
        let '(x2, err3) := ParseFloat t2 in
        let '(y2, err4) := ParseFloat t3 in
        let '(x, err5) := ParseFloat t4 in
        let '(y, err6) := ParseFloat t5 in
        if err1 || err2 || err3 || err4 || err5 || err6 then CurveErr (ErrC t0)
        else
          let cur := st_cur st in
          let '(p1, p2, p3) :=
            if Ascii.eqb (st_cmd st) "c" then
              (mkPoint (X cur + x1) (Y cur + y1),
               mkPoint (X cur + x2) (Y cur + y2),
               mkPoint (X cur + x) (Y cur + y))
            else (mkPoint x1 y1, mkPoint x2 y2, mkPoint x y) in
          (* Flatten cubic from cur -> p3 *)
          match flattenCubicBezier depth cur p1 p2 p3 ftenth [] with
          | None => CurveDeep
          | Some seg =>
              let st :=
                match seg with
                | [] => withCur st p3 (* degenerate, but keep moving *)
                | _ => fold_left addPoint seg st
                end in
              match rest' with
              | [] => CurveBreak st rest'
              | t :: _ =>
                  if isCommand t then CurveBreak st rest'
                  else curveLoop depth st rest'
              end
          end
  | _ => CurveErr ErrIncompleteC
  end.

(** The loop [for i < len(tokens)]; [rest] are the tokens from index [i]
    on and [fuel] the turns allowed. *)
Fixpoint parseLoop (fuel depth : nat) (st : PathState K) (rest : list string)
    : Parsed K :=
  match rest with
  | [] => ParseOk (st_pts st) (st_closed st)
  | tok :: rest' =>
      match fuel with
      | O => ParseStuck
      | S fuel' =>
          if isCommand tok then
            let cmd := firstRune tok in
            let st := withCmd st cmd in
            if Ascii.eqb cmd "Z" || Ascii.eqb cmd "z" then
              parseLoop fuel' depth (closePath st) rest'
            else parseLoop fuel' depth st rest'
          else if Ascii.eqb (st_cmd st) Ascii.zero then ParseErr ErrStart
          else
            let cmd := st_cmd st in
            let cur := st_cur st in
            if ContainsRune "MmLl" cmd then
              match rest' with
              | [] => ParseErr ErrOddCoords
              | tok1 :: rest'' =>
                  let '(x, err1) := ParseFloat tok in
                  let '(y, err2) := ParseFloat tok1 in
                  if err1 || err2 then ParseErr (ErrPair tok tok1)
                  else
                    let cur :=
                      if Ascii.eqb cmd "m" || Ascii.eqb cmd "l"
                      then mkPoint (X cur + x) (Y cur + y)
                      else mkPoint x y in
                    let st := addPoint st cur in
                    (* per SVG spec, subsequent coords after first M are treated as L *)
                    let st :=
                      if Ascii.eqb cmd "M" then withCmd st "L"
                      else if Ascii.eqb cmd "m" then withCmd st "l"
                      else st in
                    parseLoop fuel' depth st rest''
              end
            else if ContainsRune "Hh" cmd then
              let '(x, err) := ParseFloat tok in
              if err then ParseErr (ErrH tok)
              else
                let cur :=
                  if Ascii.eqb cmd "h" then mkPoint (X cur + x) (Y cur)
                  else mkPoint x (Y cur) in
                parseLoop fuel' depth (addPoint st cur) rest'
            else if ContainsRune "Vv" cmd then
              let '(y, err) := ParseFloat tok in
              if err then ParseErr (ErrV tok)
              else
                let cur :=
                  if Ascii.eqb cmd "v" then mkPoint (X cur) (Y cur + y)
                  else mkPoint (X cur) y in
                parseLoop fuel' depth (addPoint st cur) rest'
            else if ContainsRune "Cc" cmd then
              match curveLoop depth st rest with
              | CurveBreak st rest1 => parseLoop fuel' depth st rest1
              | CurveErr e => ParseErr e
              | CurveDeep => ParseDeep
              end
            else ParseErr (ErrUnsupported cmd)
      end
  end.

(** The state before the loop: the zero values of the variables. *)
Definition startState : PathState K :=
  mkPathState [] (mkPoint fzero fzero) (mkPoint fzero fzero) Ascii.zero false.

(** The loop over the tokens, allowed as many turns as there are tokens. *)
Definition parseTokens (depth : nat) (tokens : list string) : Parsed K :=
  parseLoop (length tokens) depth startState tokens.

Definition parseSimplePath (depth : nat) (d : string) : Parsed K :=
  let tokens := tokenizePathData d in
  match tokens with
  | [] => ParseOk [] false
  | _ => parseTokens depth tokens
  end.

End Interpreter.

(** ** Tokens, read off the path data directly *)

Section Scanning.
Local Open Scope string_scope.





End Scanning.

(** ** Readings of the lines written *)


(** The paths the compensation step keeps: the open ones, and the closed
    ones of at least two points. *)
Definition kept {K : Type} (p : Path K) : bool :=
  negb (Closed p) || (2 <=? length (Points p)).

(** ** Inputs on binary64 *)

Module Run.
Local Open Scope float_scope.

Definition pt (x y : float) : Point float := mkPoint x y.

(** [-safez 5 -cutz -1 -stepdown 0.5], no compensation. *)
Definition stepped : Config float :=
  {| SafeZ := 5; CutDepth := -1; StepDown := 0.5; CutFeed := 300;
     PlungeFeed := 120; Scale := 1; ToolDia := 0; Compensation := "none";
     ConstructionColor := ""; SvgWidth := 10; SvgHeight := 10 |}.

(** [-safez 5 -cutz 0], no compensation. *)
Definition level : Config float :=
  {| SafeZ := 5; CutDepth := 0; StepDown := 0; CutFeed := 300;
     PlungeFeed := 120; Scale := 1; ToolDia := 0; Compensation := "none";
     ConstructionColor := ""; SvgWidth := 10; SvgHeight := 10 |}.

(** An open path of one point and one of two points. *)
Definition dot : Path float := mkPath [pt 1 2] false "#000000".
Definition stroke : Path float := mkPath [pt 0 0; pt 10 0] false "#000000".

(** A triangle with its closing point, a segment walked forth and back, and
    the unit square with its closing point. *)
Definition triangle : list (Point float) := [pt 0 0; pt 4 0; pt 0 3; pt 0 0].
Definition forthAndBack : list (Point float) := [pt 0 0; pt 1 0; pt 0 0].
Definition square : list (Point float) := [pt 0 0; pt 1 0; pt 1 1; pt 0 1; pt 0 0].

(** A rectangle with a vertex in the middle of its lower side. *)
Definition slab : list (Point float) := [pt 0 0; pt 1 0; pt 2 0; pt 2 1; pt 0 1].


(** A [ParseFloat] for the examples: the integers written as decimal digits
    with an optional minus sign, an error on every other token. *)
Fixpoint digitsValue (s : string) (acc : Z) : option Z :=
  match s with
  | EmptyString => Some acc
  | String c s' =>
      let n := nat_of_ascii c in
      if ((48 <=? n) && (n <=? 57))%nat
      then digitsValue s' (10 * acc + Z.of_nat (n - 48))
      else None
  end.

Definition integerValue (s : string) : option Z :=
  match s with
  | EmptyString => None
  | String "-" EmptyString => None
  | String "-" s' => option_map Z.opp (digitsValue s' 0)
  | _ => digitsValue s 0
  end.

Definition parseInteger (s : string) : R * bool :=
  match integerValue s with
  | Some z => (IZR z, false)
  | None => (0%R, true)
  end.

End Run.

(** * Properties *)

(** ** Transform algebra *)

(** C9: over exact arithmetic, the composed transform applied to a point is
    the inner transform applied first and the outer one second:
    [Mul t u] applied to [p] equals [t] applied to ([u] applied to [p]). *)
Theorem Mul_Apply (t u : Transform R) (p : Point R) :
  Apply (Mul t u) p = Apply t (Apply u p).
Proof.
  destruct t, u, p; unfold Apply, Mul; cbn.
  f_equal; ring.
Qed.

(** ** Tokenising *)

(** C5: the letters C and c are missing from the tokenizer's list of
    commands: in "C10,10" the letter stays glued to the first number, the
    tokens are "C10" and "10", and the first is no command for [isCommand],
    for which "C" is one.  The curve of "M0,0 C0,0 10,0 10,10", a path that
    [hasUnsupportedCommands] lets through, reaches the interpreter as the
    token "C0".  The letters of the list are set apart: "L10,10" gives "L",
    "10", "10". *)
Theorem tokenizePathData_glues_C :
  tokenizePathData "C10,10" = ["C10"; "10"]%string /\
  isCommand "C10" = false /\
  isCommand "C" = true /\
  hasUnsupportedCommands "M0,0 C0,0 10,0 10,10" = false /\
  tokenizePathData "M0,0 C0,0 10,0 10,10"
    = ["M"; "0"; "0"; "C0"; "0"; "10"; "0"; "10"; "10"]%string /\
  tokenizePathData "L10,10" = ["L"; "10"; "10"]%string.
Proof. repeat split. Qed.

(** ** The emitter *)

Section DepthLoop.
Context {K : Type} `{Float64 K}.
Local Open Scope f64_scope.

Lemma plungeDepth_cutLines (cfg : Config K) (points : list (Point K)) :
  omap plungeDepth (cutLines cfg points) = [].
Proof.
  unfold cutLines. induction (drop 1 points) as [|pt l IH]; [done|].
  cbn. destruct (writePoint pt cfg). cbn. exact IH.
Qed.

(** Every pass starts again from the safe height: when the first pass does
    not reach the target depth, no later pass does, each one plunging to
    the depth of the first. *)
Lemma depthLoop_stuck (cfg : Config K) (targetZ step : K)
    (points : list (Point K)) (x0 y0 : K) :
  (firstPlunge cfg targetZ step <=? targetZ) = false ->
  forall fuel,
    let r := depthLoop fuel cfg targetZ step points x0 y0 (SafeZ cfg) in
    r.2 = false /\
    omap plungeDepth r.1 = replicate fuel (firstPlunge cfg targetZ step).
Proof.
  intros Hstuck fuel. cbn zeta.
  induction fuel as [|fuel [IHb IHp]]; [done|].
  cbn [depthLoop]. fold (firstPlunge cfg targetZ step). rewrite Hstuck.
  destruct (depthLoop fuel cfg targetZ step points x0 y0 (SafeZ cfg))
    as [rest broke] eqn:Hrest.
  cbn in IHb, IHp |- *. split; [exact IHb|].
  rewrite omap_app, plungeDepth_cutLines. cbn. by rewrite IHp.
Qed.

(** C3: when the cut depth is zero or positive, [writeGcode] has written
    four lines by the time it returns the error: the banner, G21, G90 and
    the rapid move to the safe height, a motion instruction. *)
Theorem writeGcode_cut_depth_error (fuel : nat) (paths : list (Path K))
    (cfg : Config K) :
  (CutDepth cfg >=? fzero) = true ->
  writeGcode fuel paths cfg =
    ([Banner; UnitsMM; AbsoluteCoords; RapidZ (SafeZ cfg)],
     Returned (Some (CutDepth cfg))) /\
  existsb isMotion (writeGcode fuel paths cfg).1 = true.
Proof.
  intros Hcut. unfold writeGcode. rewrite Hcut. by split.
Qed.

End DepthLoop.

Lemma writeGcode_cut_depth_error_witness :
  (CutDepth Run.level >=? fzero)%f64 = true /\
  writeGcode 1 [Run.stroke] Run.level =
    ([Banner; UnitsMM; AbsoluteCoords; RapidZ 5%float], Returned (Some 0%float)).
Proof.
  split; [reflexivity|].
  exact (proj1 (writeGcode_cut_depth_error 1 [Run.stroke] Run.level eq_refl)).
Defined.

(** C1: with safe height 5, cut depth -1 and step-down 0.5 the depth loop of
    a one-point entity is never left: however many passes are allowed, the
    call is still running, since each pass starts again from the safe
    height instead of the depth the pass before reached. *)
Theorem writeGcode_depth_loop_never_left (fuel : nat) :
  (writeGcode fuel [Run.dot] Run.stepped).2 = Running.
Proof.
  unfold writeGcode.
  change (CutDepth Run.stepped >=? fzero)%f64 with false.
  cbn [negb Compensation Run.stepped String.eqb Ascii.eqb Bool.eqb andb].
  cbn [pathLoop Run.dot Points].
  destruct (writePoint (Run.pt 1 2) Run.stepped) as [x0 y0].
  set (step := fabs _).
  pose proof (depthLoop_stuck Run.stepped (CutDepth Run.stepped) step
                [Run.pt 1 2] x0 y0 eq_refl fuel) as [Hb _].
  cbn zeta in Hb.
  destruct (depthLoop fuel _ _ _ _ _ _ _) as [passes broke].
  cbn in Hb. subst broke. reflexivity.
Qed.

(** C2: with safe height 5, cut depth -1 and step-down 0.5 (a depth range of
    6, hence 12 passes by the rule) every pass the emitter runs plunges to
    4.5: of [fuel] passes allowed all [fuel] are run, none deeper than the
    first and none at the cut depth. *)
Theorem writeGcode_every_plunge_at_first_depth (fuel : nat) :
  omap plungeDepth (writeGcode fuel [Run.stroke] Run.stepped).1
    = replicate fuel 4.5%float.
Proof.
  unfold writeGcode.
  change (CutDepth Run.stepped >=? fzero)%f64 with false.
  cbn [negb Compensation Run.stepped String.eqb Ascii.eqb Bool.eqb andb].
  cbn [pathLoop Run.stroke Points].
  destruct (writePoint (Run.pt 0 0) Run.stepped) as [x0 y0].
  set (step := fabs _).
  pose proof (depthLoop_stuck Run.stepped (CutDepth Run.stepped) step
                [Run.pt 0 0; Run.pt 10 0] x0 y0 eq_refl fuel) as [Hb Hp].
  cbn zeta in Hb, Hp.
  destruct (depthLoop fuel _ _ _ _ _ _ _) as [passes broke].
  cbn in Hb, Hp. subst broke. cbn [fst snd].
  rewrite !omap_app, Hp. reflexivity.
Qed.

(** ** Slices and loops *)

Section Loops.
Context {T : Type}.

Lemma index_of_nat (l : list T) (i : nat) : index l (Z.of_nat i) = l !! i.
Proof.
  unfold index. destruct (Z.ltb_spec (Z.of_nat i) 0); [lia|].
  by rewrite Nat2Z.id.
Qed.

Lemma store_of_nat (l : list T) (i : nat) (v : T) :
  i < length l -> store l (Z.of_nat i) v = Some (<[i:=v]> l).
Proof.
  intros Hi. unfold store.
  destruct (Z.leb_spec 0 (Z.of_nat i)); [|lia].
  destruct (Z.ltb_spec (Z.of_nat i) (Z.of_nat (length l))); [|lia].
  cbn. by rewrite Nat2Z.id.
Qed.

(** A loop whose body keeps an invariant, and does not panic where the
    invariant holds, runs to its end and establishes the invariant there. *)
Lemma forLoop_inv {S : Type} (P : nat -> S -> Prop)
    (body : Z -> S -> option S) (count from : nat) (s : S) :
  P from s ->
  (forall i s, from <= i < from + count -> P i s ->
     exists s', body (Z.of_nat i) s = Some s' /\ P (Datatypes.S i) s') ->
  exists s', forLoop count (Z.of_nat from) body s = Some s' /\ P (from + count) s'.
Proof.
  revert from s. induction count as [|count IH]; intros from s Hs Hbody.
  - exists s. rewrite Nat.add_0_r. by split.
  - destruct (Hbody from s) as (s1 & Hb & Hs1); [lia|done|].
    destruct (IH (Datatypes.S from) s1 Hs1) as (s2 & Hl & Hs2).
    { intros i s' Hi. apply Hbody. lia. }
    exists s2. cbn [forLoop]. rewrite Hb. cbn.
    replace (Z.of_nat from + 1)%Z with (Z.of_nat (Datatypes.S from)) by lia.
    split; [exact Hl|]. by replace (from + Datatypes.S count) with (Datatypes.S from + count) by lia.
Qed.

Lemma forRange_inv {S : Type} (P : nat -> S -> Prop)
    (body : Z -> S -> option S) (n : nat) (s : S) :
  P 0 s ->
  (forall i s, i < n -> P i s ->
     exists s', body (Z.of_nat i) s = Some s' /\ P (Datatypes.S i) s') ->
  exists s', forRange (Z.of_nat n) body s = Some s' /\ P n s'.
Proof.
  intros Hs Hbody. unfold forRange. rewrite Nat2Z.id.
  apply (forLoop_inv P body n 0 s Hs).
  intros i s' Hi. apply Hbody. lia.
Qed.

End Loops.

(** The indices of the neighbours of vertex [i], as the code computes them. *)
Lemma rem_next (i n : nat) :
  0 < n -> Z.rem (Z.of_nat i + 1) (Z.of_nat n) = Z.of_nat ((i + 1) mod n).
Proof.
  intros Hn. rewrite Z.rem_mod_nonneg by lia.
  replace (Z.of_nat i + 1)%Z with (Z.of_nat (i + 1)) by lia.
  by rewrite Nat2Z.inj_mod.
Qed.

Lemma rem_prev (i n : nat) :
  0 < n ->
  Z.rem (Z.of_nat i - 1 + Z.of_nat n) (Z.of_nat n) = Z.of_nat ((i + n - 1) mod n).
Proof.
  intros Hn. rewrite Z.rem_mod_nonneg by lia.
  replace (Z.of_nat i - 1 + Z.of_nat n)%Z with (Z.of_nat (i + n - 1)) by lia.
  by rewrite Nat2Z.inj_mod.
Qed.

(** ** Polygon offsetting *)

Section OffsetFacts.
Context {K : Type} `{Float64 K}.

Lemma dropClosing_keptOf (points : list (Point K)) (first : Point K)
    (rest poly : list (Point K)) (i : nat) :
  points !! 0 = Some first ->
  i + length rest = length points ->
  dropClosing points (Z.of_nat (length points)) (Z.of_nat i) rest poly
    = Some (poly ++ keptOf first rest).
Proof.
  intros Hfirst. revert poly i.
  induction rest as [|p rest IH]; intros poly i Hlen.
  - by rewrite app_nil_r.
  - cbn [dropClosing length] in *.
    replace (Z.of_nat i + 1)%Z with (Z.of_nat (Datatypes.S i)) by lia.
    destruct (Z.eqb_spec (Z.of_nat i) (Z.of_nat (length points) - 1)) as [Hi|Hi].
    + assert (rest = []) as -> by (destruct rest; [done|cbn in Hlen; lia]).
      change 0%Z with (Z.of_nat 0). rewrite index_of_nat, Hfirst. cbn.
      unfold keptOf. cbn.
      destruct (almostEqualPoint p first); [by rewrite app_nil_r|done].
    + rewrite IH by lia. rewrite <- app_assoc. do 2 f_equal.
      destruct rest as [|q rest]; [cbn in Hlen; lia|].
      unfold keptOf. rewrite last_cons_cons.
      destruct (list.last (q :: rest)) as [l|]; [|done].
      destruct (almostEqualPoint l first); [|done].
      cbn [length]. by rewrite !Nat.sub_succ, Nat.sub_0_r.
Qed.

(** The loop that drops a duplicated closing point does not panic and
    computes [normalized]. *)
Lemma dropClosing_normalized (points : list (Point K)) :
  points <> [] ->
  dropClosing points (Z.of_nat (length points)) 0 points [] = Some (normalized points).
Proof.
  intros Hne. destruct points as [|first tl] eqn:Hpts; [done|].
  rewrite <- Hpts. change 0%Z with (Z.of_nat 0).
  rewrite (dropClosing_keptOf points first points [] 0); [|by subst|done].
  cbn [app]. f_equal. unfold keptOf, normalized. subst points.
  by destruct (list.last (first :: tl)).
Qed.

Lemma length_normalized (points : list (Point K)) :
  length (normalized points) <= length points.
Proof.
  unfold normalized. destruct points as [|first tl]; [done|].
  destruct (list.last (first :: tl)); [|done].
  destruct (almostEqualPoint _ _); [|done].
  rewrite length_take. lia.
Qed.

(** The area loop reads inside [poly] only. *)
Lemma areaLoop_total (poly : list (Point K)) :
  0 < length poly ->
  exists a, areaLoop poly (Z.of_nat (length poly)) = Some a.
Proof.
  intros Hn. unfold areaLoop.
  destruct (forRange_inv (fun _ _ => True)
              (fun i area =>
                 let j := Z.rem (i + 1) (Z.of_nat (length poly)) in
                 pi ← index poly i; pj ← index poly j;
                 Some (area + (X pi * Y pj - X pj * Y pi))%f64)
              (length poly) fzero I) as (a & Ha & _); [|by exists a].
  intros i area Hi _. cbn zeta. rewrite rem_next, !index_of_nat by done.
  destruct (lookup_lt_is_Some_2 poly i Hi) as [pi ->].
  destruct (lookup_lt_is_Some_2 poly ((i + 1) mod length poly)) as [pj ->];
    [apply Nat.mod_upper_bound; lia|].
  cbn. eauto.
Qed.

(** The edge loop does not panic; it leaves in [dirs] and [norms], at the
    index of each edge, the direction and the chosen normal of that edge. *)
Lemma edgeLoop_entries (poly : list (Point K)) (area : K) (mode : string) :
  0 < length poly ->
  exists dirs norms,
    edgeLoop poly (Z.of_nat (length poly)) area mode = Some (dirs, norms) /\
    forall j p0 p1,
      poly !! j = Some p0 -> poly !! ((j + 1) mod length poly) = Some p1 ->
      dirs !! j = Some (edgeDir p0 p1) /\
      norms !! j = Some (edgeNormal p0 p1 area mode).
Proof.
  intros Hn. unfold edgeLoop. set (n := length poly) in *.
  pose (P := fun (i : nat) (s : list (Point K) * list (Point K)) =>
    length s.1 = n /\ length s.2 = n /\
    forall j p0 p1, j < i ->
      poly !! j = Some p0 -> poly !! ((j + 1) mod n) = Some p1 ->
      s.1 !! j = Some (edgeDir p0 p1) /\
      s.2 !! j = Some (edgeNormal p0 p1 area mode)).
  match goal with |- context [forRange _ ?b ?s] =>
    destruct (forRange_inv P b n s) as ([dirs norms] & Hrun & Hd & Hn' & Hall)
  end.
  - rewrite Nat2Z.id. split; [|split]; cbn; rewrite ?length_replicate; try done.
    intros; lia.
  - intros i [dirs norms] Hi (Hd & Hn' & Hall). cbn in Hd, Hn'.
    rewrite rem_next, !index_of_nat by done.
    destruct (lookup_lt_is_Some_2 poly i Hi) as [p0 Hp0].
    destruct (lookup_lt_is_Some_2 poly ((i + 1) mod n)) as [p1 Hp1];
      [apply Nat.mod_upper_bound; lia|].
    rewrite Hp0, Hp1. cbn.
    rewrite !store_of_nat by lia. cbn.
    eexists. split; [done|]. split; [|split]; cbn; rewrite ?length_insert; try done.
    intros j q0 q1 Hj Hq0 Hq1.
    destruct (decide (j = i)) as [->|Hne].
    + rewrite !list_lookup_insert_eq by lia. by simplify_eq.
    + rewrite !list_lookup_insert_ne by done. apply Hall; [lia|done..].
  - exists dirs, norms. split; [exact Hrun|].
    intros j p0 p1 Hp0 Hp1. apply Hall; [|done..].
    by apply lookup_lt_Some in Hp0.
Qed.

(** The loop over the vertices does not panic; it appends the offset vertex
    of each vertex, in the order of the vertices. *)
Lemma vertexLoop_vertices (poly dirs norms : list (Point K)) (area : K)
    (mode : string) (delta : K) :
  0 < length poly ->
  (forall j p0 p1,
      poly !! j = Some p0 -> poly !! ((j + 1) mod length poly) = Some p1 ->
      dirs !! j = Some (edgeDir p0 p1) /\
      norms !! j = Some (edgeNormal p0 p1 area mode)) ->
  exists result,
    forRange (Z.of_nat (length poly))
      (vertexStep poly dirs norms (Z.of_nat (length poly)) delta) [] = Some result /\
    length result = length poly /\
    forall i, i < length poly ->
      exists v, result !! i = Some v /\ vertexOf poly area mode delta i v.
Proof.
  intros Hn Hedges. set (n := length poly) in *.
  pose (P := fun (i : nat) (result : list (Point K)) =>
    length result = i /\
    forall k, k < i -> exists v, result !! k = Some v /\ vertexOf poly area mode delta k v).
  destruct (forRange_inv P (vertexStep poly dirs norms (Z.of_nat n) delta) n [])
    as (result & Hrun & Hlen & Hall).
  - split; [done|]. intros; lia.
  - intros i result Hi [Hlen Hall]. unfold vertexStep. cbn zeta.
    rewrite rem_prev, !index_of_nat by done.
    assert ((i + n - 1) mod n < n) as Hprev by (apply Nat.mod_upper_bound; lia).
    assert ((i + 1) mod n < n) as Hnext by (apply Nat.mod_upper_bound; lia).
    destruct (lookup_lt_is_Some_2 poly _ Hprev) as [pPrev HpPrev].
    destruct (lookup_lt_is_Some_2 poly _ Hi) as [pCur HpCur].
    destruct (lookup_lt_is_Some_2 poly _ Hnext) as [pNext HpNext].
    assert (((i + n - 1) mod n + 1) mod n = i) as Hback.
    { rewrite Nat.Div0.add_mod_idemp_l. replace (i + n - 1 + 1) with (i + 1 * n) by lia.
      rewrite Nat.Div0.mod_add. by apply Nat.mod_small. }
    destruct (Hedges _ pPrev pCur HpPrev) as [He0 Hn0]; [by rewrite Hback|].
    destruct (Hedges _ pCur pNext HpCur HpNext) as [He1 Hn1].
    rewrite HpPrev, He0, Hn0, HpCur, He1, Hn1. cbn.
    eexists. split; [done|]. split; [rewrite length_app; cbn; lia|].
    intros k Hk. destruct (decide (k = i)) as [->|Hne].
    + eexists. split; [by rewrite lookup_app_r, Hlen, Nat.sub_diag by lia|].
      exists pPrev, pCur, pNext. by fold n.
    + destruct (Hall k) as (v & Hv & Hof); [lia|].
      exists v. split; [|done]. by apply lookup_app_l_Some.
  - exists result. by repeat split.
Qed.

(** Where [offsetPolygon] gets as far as offsetting it returns the offset
    vertices of the vertices of [poly], in their order, and then the first
    of them once more. *)
Lemma offsetPolygon_offsets (points : list (Point K)) (delta : K) (mode : string)
    (poly : list (Point K)) (area : K) :
  Offsetting points delta poly area ->
  exists vs v0,
    offsetPolygon points delta mode = Some (vs ++ [v0]) /\
    length vs = length poly /\
    vs !! 0 = Some v0 /\
    forall i, i < length poly ->
      exists v, vs !! i = Some v /\ vertexOf poly area mode delta i v.
Proof.
  intros (Hdelta & Hdrop & Hn & (a & Harea & ->) & Hbig).
  assert (points <> []) as Hne.
  { intros ->. cbn in Hdrop. simplify_eq. cbn in Hn. lia. }
  assert (length poly <= length points) as Hle.
  { pose proof (dropClosing_normalized points Hne) as Hnorm.
    rewrite Hdrop in Hnorm. injection Hnorm as ->. apply length_normalized. }
  destruct (edgeLoop_entries poly (a * fhalf)%f64 mode) as (dirs & norms & Hedge & Hentries);
    [lia|].
  destruct (vertexLoop_vertices poly dirs norms (a * fhalf)%f64 mode delta)
    as (vs & Hrun & Hlen & Hall); [lia|done|].
  destruct vs as [|v0 vs'] eqn:Hvs; [cbn in Hlen; lia|].
  exists (v0 :: vs'), v0. split; [|by repeat split].
  unfold offsetPolygon. rewrite Hdelta.
  destruct (Z.ltb_spec (Z.of_nat (length points)) 3); [lia|]. cbn [orb].
  rewrite Hdrop. cbn.
  destruct (Z.ltb_spec (Z.of_nat (length poly)) 3); [lia|].
  rewrite Harea. cbn. rewrite Hbig, Hedge. cbn. by rewrite Hrun.
Qed.

(** [offsetPolygon] never panics. *)
Lemma offsetPolygon_total (points : list (Point K)) (delta : K) (mode : string) :
  exists result, offsetPolygon points delta mode = Some result.
Proof.
  unfold offsetPolygon.
  destruct ((delta ==? fzero)%f64 || (Z.of_nat (length points) <? 3)%Z) eqn:Hearly;
    [by eexists|].
  apply orb_false_iff in Hearly as [Hdelta Hlen]. apply Z.ltb_ge in Hlen.
  assert (points <> []) as Hne by (intros ->; cbn in Hlen; lia).
  rewrite (dropClosing_normalized points Hne). cbn.
  set (poly := normalized points).
  destruct (Z.ltb_spec (Z.of_nat (length poly)) 3) as [|Hn]; [by eexists|].
  destruct (areaLoop_total poly) as [a Ha]; [lia|].
  rewrite Ha. cbn.
  destruct (fabs (a * fhalf)%f64 <? feps)%f64 eqn:Hbig; [by eexists|].
  destruct (offsetPolygon_offsets points delta mode poly (a * fhalf)%f64)
    as (vs & v0 & Hrun & _).
  { repeat split; [done|by apply dropClosing_normalized|lia|by exists a|done]. }
  unfold offsetPolygon in Hrun.
  rewrite Hdelta in Hrun.
  destruct (Z.ltb_spec (Z.of_nat (length points)) 3); [lia|]. cbn [orb] in Hrun.
  rewrite (dropClosing_normalized points Hne) in Hrun. cbn in Hrun. fold poly in Hrun.
  destruct (Z.ltb_spec (Z.of_nat (length poly)) 3); [lia|].
  rewrite Ha in Hrun. cbn in Hrun. rewrite Hbig in Hrun.
  by eexists.
Qed.

(** C4, as the code has it: when [delta] is exactly zero, or the input has
    fewer than 3 points, [offsetPolygon] returns the input as it is, a
    duplicated closing point included; when [delta] is not zero, the input
    has at least 3 points and fewer than 3 are left once the duplicated
    closing point is dropped, it returns the points that are left. *)
Theorem offsetPolygon_unchanged (points : list (Point K)) (delta : K) (mode : string) :
  ((delta ==? fzero)%f64 = true \/ length points < 3 ->
   offsetPolygon points delta mode = Some points) /\
  ((delta ==? fzero)%f64 = false -> 3 <= length points ->
   length (normalized points) < 3 ->
   offsetPolygon points delta mode = Some (normalized points)).
Proof.
  split.
  - intros Hearly. unfold offsetPolygon.
    destruct Hearly as [-> | Hshort]; [done|].
    destruct (Z.ltb_spec (Z.of_nat (length points)) 3); [|lia].
    by rewrite orb_true_r.
  - intros Hdelta Hlen Hleft. unfold offsetPolygon. rewrite Hdelta.
    destruct (Z.ltb_spec (Z.of_nat (length points)) 3); [lia|]. cbn [orb].
    rewrite dropClosing_normalized by (intros ->; cbn in Hlen; lia). cbn.
    by destruct (Z.ltb_spec (Z.of_nat (length (normalized points))) 3); [|lia].
Qed.

(** C6: where [offsetPolygon] gets as far as offsetting, the polyline it
    returns is closed, its last point being its first point, and has more
    points than the polygon had vertices; and on every input it returns a
    polyline, without panicking. *)
Theorem offsetPolygon_closed (points : list (Point K)) (delta : K) (mode : string) :
  (forall poly area,
     Offsetting points delta poly area ->
     exists result first,
       offsetPolygon points delta mode = Some result /\
       result !! 0 = Some first /\
       list.last result = Some first /\
       length poly < length result) /\
  (exists result, offsetPolygon points delta mode = Some result).
Proof.
  split; [|apply offsetPolygon_total].
  intros poly area Hoff.
  destruct (offsetPolygon_offsets points delta mode poly area Hoff)
    as (vs & v0 & Hrun & Hlen & Hv0 & _).
  exists (vs ++ [v0]), v0. split; [exact Hrun|].
  split; [by apply lookup_app_l_Some|].
  split; [apply last_snoc|]. rewrite length_app. cbn. lia.
Qed.

(** C7: where [offsetPolygon] gets as far as offsetting, at a vertex [i]
    whose two edges are nearly parallel (the absolute value of the cross
    product of their directions is below epsilon) the vertex returned is the
    start of the offset line of the second edge: the vertex itself moved by
    [delta] along the normal chosen for the edge that leaves it. *)
Theorem offsetPolygon_parallel_fallback (points : list (Point K)) (delta : K)
    (mode : string) (poly : list (Point K)) (area : K)
    (result : list (Point K)) (i : nat) (pPrev pCur pNext : Point K) :
  Offsetting points delta poly area ->
  offsetPolygon points delta mode = Some result ->
  poly !! ((i + length poly - 1) mod length poly) = Some pPrev ->
  poly !! i = Some pCur ->
  poly !! ((i + 1) mod length poly) = Some pNext ->
  (fabs (cross (edgeDir pPrev pCur) (edgeDir pCur pNext)) <? feps)%f64 = true ->
  result !! i =
    Some (mkPoint (X pCur + X (edgeNormal pCur pNext area mode) * delta)%f64
                  (Y pCur + Y (edgeNormal pCur pNext area mode) * delta)%f64).
Proof.
  intros Hoff Hres HpPrev HpCur HpNext Hpar.
  destruct (offsetPolygon_offsets points delta mode poly area Hoff)
    as (vs & v0 & Hrun & Hlen & _ & Hall).
  rewrite Hrun in Hres. injection Hres as <-.
  destruct (Hall i) as (v & Hv & (qPrev & qCur & qNext & Hq1 & Hq2 & Hq3 & ->));
    [by apply lookup_lt_Some in HpCur|].
  cbn zeta in Hq1, Hq3. simplify_eq.
  rewrite (lookup_app_l_Some _ _ _ _ Hv). f_equal.
  unfold offsetVertex. by rewrite Hpar.
Qed.

(** C10: where [offsetPolygon] gets as far as offsetting a polygon of [n]
    vertices, it returns [n + 1] points: at each index [i] below [n] the
    offset vertex of vertex [i], and at index [n] the point at index 0 once
    more. *)
Theorem offsetPolygon_vertex_count (points : list (Point K)) (delta : K)
    (mode : string) (poly : list (Point K)) (area : K) :
  Offsetting points delta poly area ->
  exists result,
    offsetPolygon points delta mode = Some result /\
    length result = length poly + 1 /\
    (forall i, i < length poly ->
       exists v, result !! i = Some v /\ vertexOf poly area mode delta i v) /\
    result !! length poly = result !! 0.
Proof.
  intros Hoff.
  destruct (offsetPolygon_offsets points delta mode poly area Hoff)
    as (vs & v0 & Hrun & Hlen & Hv0 & Hall).
  exists (vs ++ [v0]). split; [exact Hrun|].
  split; [rewrite length_app; cbn; lia|]. split.
  - intros i Hi. destruct (Hall i Hi) as (v & Hv & Hof).
    exists v. split; [by apply lookup_app_l_Some|done].
  - rewrite (lookup_app_l_Some _ _ _ _ Hv0).
    by rewrite lookup_app_r, Hlen, Nat.sub_diag by lia.
Qed.

End OffsetFacts.

(** *** Offsetting on binary64 *)

(** C4, as stated, fails: with [delta] zero the closed triangle comes back
    with its closing point, 4 points against the 3 of the normalized input;
    and of a segment walked forth and back, offset by 1, the 2 points left by
    the normalization come back, not the 3 of the input. *)
Lemma offsetPolygon_zero_delta_not_normalized :
  (exists result,
     offsetPolygon Run.triangle 0%float "inside" = Some result /\
     normalized Run.triangle = [Run.pt 0 0; Run.pt 4 0; Run.pt 0 3] /\
     samePolyline result (normalized Run.triangle) = false) /\
  (exists result,
     offsetPolygon Run.forthAndBack 1%float "inside" = Some result /\
     length (normalized Run.forthAndBack) < 3 /\
     samePolyline result Run.forthAndBack = false).
Proof.
  split.
  - exists Run.triangle. by repeat split.
  - exists [Run.pt 0 0; Run.pt 1 0]. repeat split. cbn. lia.
Qed.

Lemma offsetPolygon_unchanged_witness :
  offsetPolygon Run.triangle 0%float "inside" = Some Run.triangle /\
  offsetPolygon Run.forthAndBack 1%float "inside" = Some [Run.pt 0 0; Run.pt 1 0].
Proof.
  split.
  - apply (proj1 (offsetPolygon_unchanged Run.triangle 0%float "inside")).
    left. reflexivity.
  - change [Run.pt 0 0; Run.pt 1 0] with (normalized Run.forthAndBack).
    apply (proj2 (offsetPolygon_unchanged Run.forthAndBack 1%float "inside"));
      [reflexivity|cbn; lia|cbn; lia].
Defined.

(** The unit square offset by 1 and the slab offset by a quarter get as far
    as offsetting. *)
Lemma square_Offsetting :
  Offsetting Run.square 1%float
    [Run.pt 0 0; Run.pt 1 0; Run.pt 1 1; Run.pt 0 1] 1%float.
Proof.
  split; [reflexivity|]. split; [reflexivity|]. split; [cbn; lia|].
  split; [|reflexivity]. exists 2%float. by split.
Defined.

Lemma slab_Offsetting : Offsetting Run.slab 0.25%float Run.slab 2%float.
Proof.
  split; [reflexivity|]. split; [reflexivity|]. split; [cbn; lia|].
  split; [|reflexivity]. exists 4%float. by split.
Defined.

Lemma offsetPolygon_closed_witness :
  exists result first,
    offsetPolygon Run.square 1%float "outside" = Some result /\
    result !! 0 = Some first /\
    list.last result = Some first /\
    4 < length result.
Proof.
  exact (proj1 (offsetPolygon_closed Run.square 1%float "outside") _ _
           square_Offsetting).
Defined.

Lemma offsetPolygon_parallel_fallback_witness :
  offsetPolygon Run.slab 0.25%float "inside"
    = Some [Run.pt 0.25 0.25; Run.pt 1 0.25; Run.pt 1.75 0.25;
            Run.pt 1.75 0.75; Run.pt 0.25 0.75; Run.pt 0.25 0.25] /\
  [Run.pt 0.25 0.25; Run.pt 1 0.25; Run.pt 1.75 0.25;
   Run.pt 1.75 0.75; Run.pt 0.25 0.75; Run.pt 0.25 0.25] !! 1
    = Some (Run.pt 1 0.25).
Proof.
  split; [reflexivity|].
  exact (offsetPolygon_parallel_fallback Run.slab 0.25%float "inside" Run.slab
           2%float _ 1 (Run.pt 0 0) (Run.pt 1 0) (Run.pt 2 0)
           slab_Offsetting eq_refl eq_refl eq_refl eq_refl eq_refl).
Defined.

Lemma offsetPolygon_vertex_count_witness :
  exists result,
    offsetPolygon Run.square 1%float "outside" = Some result /\
    length result = 5 /\
    (forall i, i < 4 ->
       exists v, result !! i = Some v /\
         vertexOf [Run.pt 0 0; Run.pt 1 0; Run.pt 1 1; Run.pt 0 1]
           1%float "outside" 1%float i v) /\
    result !! 4 = result !! 0.
Proof.
  exact (offsetPolygon_vertex_count Run.square 1%float "outside" _ _
           square_Offsetting).
Defined.

(** ** Curve flattening on binary64 *)



(** ** Curve flattening, over the reals *)

Section Flatten.
Local Open Scope R_scope.












End Flatten.


(** * Further properties *)

(** ** Transform algebra, over the reals *)

(** Composition is associative. *)
Theorem Mul_assoc (t u v : Transform R) : Mul (Mul t u) v = Mul t (Mul u v).
Proof.
  destruct t, u, v; unfold Mul; cbn.
  f_equal; ring.
Qed.

(** The identity transform is a unit of composition on both sides and maps
    every point to itself. *)
Theorem identityTransform_unit (t : Transform R) (p : Point R) :
  Mul identityTransform t = t /\
  Mul t identityTransform = t /\
  Apply identityTransform p = p.
Proof.
  destruct t, p; unfold Mul, Apply, identityTransform; cbn.
  repeat split; f_equal; ring.
Qed.

(** ** Curve flattening, for every arithmetic *)

Section FlattenShape.
Context {K : Type} `{Float64 K}.

(** What a call appends: it leaves [out] as it is and appends at least one
    point, the last being the end point [p3] itself. *)
Theorem flattenCubicBezier_appends (fuel : nat) (p0 p1 p2 p3 : Point K)
    (flatness : K) (out result : list (Point K)) :
  flattenCubicBezier fuel p0 p1 p2 p3 flatness out = Some result ->
  exists pts, result = out ++ pts /\ list.last pts = Some p3.
Proof.
  revert p0 p1 p2 p3 out result.
  induction fuel as [|fuel IH]; intros p0 p1 p2 p3 out result; [done|].
  cbn [flattenCubicBezier].
  destruct (_ && _).
  - intros [= <-]. by exists [p3].
  - destruct (flattenCubicBezier fuel p0 _ _ _ flatness out) as [out1|] eqn:Hleft;
      [|done].
    cbn [mbind option_bind]. intros Hright.
    apply IH in Hleft as (pts1 & -> & _).
    apply IH in Hright as (pts2 & -> & Hlast).
    exists (pts1 ++ pts2). split; [by rewrite app_assoc|].
    by rewrite last_app, Hlast.
Qed.


End FlattenShape.

Lemma flattenCubicBezier_appends_witness :
  exists pts,
    [Run.pt 0 0; Run.pt 10 10] = [Run.pt 0 0] ++ pts /\
    list.last pts = Some (Run.pt 10 10).
Proof.
  exact (flattenCubicBezier_appends 1 (Run.pt 0 0) (Run.pt 3 3) (Run.pt 6 6)
           (Run.pt 10 10) ftenth [Run.pt 0 0] _ eq_refl).
Defined.


(** ** Curve flattening, over the reals: the points emitted *)

Section FlattenCurve.
Local Open Scope R_scope.




(** For distinct [a] and [b] the distance measured is the perpendicular
    distance from [p] to the line through [a] and [b]: the absolute value of
    the cross product of [b - a] and [p - a], over the length of [b - a]. *)
Theorem distPointToLine_perpendicular (p a b : Point R) :
  X a <> X b \/ Y a <> Y b ->
  distPointToLine p a b =
    Rabs ((X b - X a) * (Y p - Y a) - (Y b - Y a) * (X p - X a))
    / R_sqrt.sqrt ((X b - X a) * (X b - X a) + (Y b - Y a) * (Y b - Y a)).
Proof.
  intros Hab. unfold distPointToLine. cbn.
  set (dx := X b - X a). set (dy := Y b - Y a).
  set (u := X p - X a). set (v := Y p - Y a).
  assert (0 < dx * dx + dy * dy) as Hd.
  { assert (dx <> 0 \/ dy <> 0) as [Hne|Hne] by (subst dx dy; destruct Hab; [left|right]; lra).
    - pose proof (Rsqr_pos_lt dx Hne) as Hpos. unfold Rsqr in Hpos. nra.
    - pose proof (Rsqr_pos_lt dy Hne) as Hpos. unfold Rsqr in Hpos. nra. }
  assert (Exact.Reqb dx 0 && Exact.Reqb dy 0 = false) as ->.
  { unfold Exact.Reqb. destruct (Req_dec_T dx 0) as [Hx|]; [|done].
    destruct (Req_dec_T dy 0) as [Hy|]; [|done]. rewrite Hx, Hy in Hd. lra. }
  set (d := dx * dx + dy * dy) in *. set (t := (u * dx + v * dy) / d).
  replace ((X p - (X a + t * dx)) * (X p - (X a + t * dx)) +
           (Y p - (Y a + t * dy)) * (Y p - (Y a + t * dy)))
    with ((dx * v - dy * u) * (dx * v - dy * u) / d)
    by (subst t d u v; field; lra).
  rewrite sqrt_div_alt by done. f_equal.
  replace ((dx * v - dy * u) * (dx * v - dy * u)) with (Rsqr (dx * v - dy * u)) by done.
  apply sqrt_Rsqr_abs.
Qed.

End FlattenCurve.

Lemma distPointToLine_perpendicular_witness :
  distPointToLine (mkPoint 1%R 5%R) (mkPoint 0%R 0%R) (mkPoint 2%R 0%R) =
    (Rabs ((2 - 0) * (5 - 0) - (0 - 0) * (1 - 0))
     / R_sqrt.sqrt ((2 - 0) * (2 - 0) + (0 - 0) * (0 - 0)))%R.
Proof.
  apply (distPointToLine_perpendicular (mkPoint 1%R 5%R) (mkPoint 0%R 0%R)
           (mkPoint 2%R 0%R)).
  left. cbn. lra.
Defined.


(** ** Polygon offsetting: the geometry, over the reals *)

Section OffsetGeometry.
Local Open Scope R_scope.

Lemma Rltb_false (x y : R) : Exact.Rltb x y = false -> y <= x.
Proof. unfold Exact.Rltb. destruct (Rlt_dec x y); [done|]. intros _. lra. Qed.

(** Where the two edges are not nearly parallel, the offset vertex is the
    intersection of the two offset lines: it lies on the line through [q0]
    with direction [e0] and on the line through [q1] with direction [e1]. *)
Theorem offsetVertex_on_offset_lines (pPrev e0 n0v pCur e1 n1v : Point R)
    (delta : R) :
  (fabs (cross e0 e1) <? feps)%f64 = false ->
  let q0 := offsetStart pPrev n0v delta in
  let q1 := offsetStart pCur n1v delta in
  let v := offsetVertex pPrev e0 n0v pCur e1 n1v delta in
  cross (mkPoint (X v - X q0) (Y v - Y q0)) e0 = 0 /\
  cross (mkPoint (X v - X q1) (Y v - Y q1)) e1 = 0.
Proof.
  intros Hpar. cbn zeta. unfold offsetVertex. rewrite Hpar.
  apply Rltb_false in Hpar.
  assert (cross e0 e1 <> 0) as Hne.
  { intros Hz. rewrite Hz in Hpar. change (fabs 0) with (Rabs 0) in Hpar.
    rewrite Rabs_R0 in Hpar. cbn in Hpar. lra. }
  unfold cross, offsetStart in *. cbn in *. split; field; exact Hne.
Qed.

(** The normal chosen for an edge of nonzero length has length 1 and is
    perpendicular to the edge; for a mode other than "inside" it is the
    opposite of the normal for "inside". *)
Theorem edgeNormal_unit_perpendicular (p0 p1 : Point R) (area : R) (mode : string) :
  X p0 <> X p1 \/ Y p0 <> Y p1 ->
  let nv := edgeNormal p0 p1 area mode in
  X nv * X nv + Y nv * Y nv = 1 /\
  X nv * X (edgeDir p0 p1) + Y nv * Y (edgeDir p0 p1) = 0 /\
  (mode <> "inside"%string ->
   nv = mkPoint (- X (edgeNormal p0 p1 area "inside"))
                (- Y (edgeNormal p0 p1 area "inside"))).
Proof.
  intros Hne. cbn zeta. unfold edgeNormal, edgeDir. cbn.
  set (ex := X p1 - X p0). set (ey := Y p1 - Y p0).
  assert (0 < ex * ex + ey * ey) as Hd.
  { assert (ex <> 0 \/ ey <> 0) as [Hz|Hz] by (subst ex ey; destruct Hne; [left|right]; lra).
    - pose proof (Rsqr_pos_lt ex Hz) as Hpos. unfold Rsqr in Hpos. nra.
    - pose proof (Rsqr_pos_lt ey Hz) as Hpos. unfold Rsqr in Hpos. nra. }
  pose proof (sqrt_lt_R0 _ Hd) as Hlen.
  pose proof (sqrt_sqrt (ex * ex + ey * ey) (Rlt_le _ _ Hd)) as Hsq.
  set (len := R_sqrt.sqrt (ex * ex + ey * ey)) in *.
  assert (Exact.Reqb len 0 = false) as ->.
  { unfold Exact.Reqb. destruct (Req_dec_T len 0); [lra|done]. }
  assert (ex * ex / (len * len) + ey * ey / (len * len) = 1) as Hunit.
  { rewrite Hsq. field. lra. }
  split; [|split].
  - destruct (Exact.Rltb 0 area), (String.eqb mode "inside"); cbn;
      rewrite <- Hunit; field; lra.
  - destruct (Exact.Rltb 0 area), (String.eqb mode "inside"); cbn; field; lra.
  - intros Hmode. apply String.eqb_neq in Hmode. by rewrite Hmode.
Qed.

End OffsetGeometry.

Lemma axes_not_parallel :
  (fabs (cross (mkPoint 1%R 0%R) (mkPoint 0%R 1%R)) <? feps)%f64 = false.
Proof.
  unfold cross. cbn. unfold Exact.Rltb.
  replace (1 * 1 - 0 * 0)%R with 1%R by ring. rewrite Rabs_R1.
  destruct (Rlt_dec 1 (/ 1000000000)) as [Hlt|]; [lra|done].
Qed.

Lemma offsetVertex_on_offset_lines_witness :
  let e0 := mkPoint 1%R 0%R in
  let e1 := mkPoint 0%R 1%R in
  let q0 := offsetStart (mkPoint 0%R 0%R) (mkPoint 0%R 1%R) 1%R in
  let q1 := offsetStart (mkPoint 2%R 0%R) (mkPoint (-1)%R 0%R) 1%R in
  let v := offsetVertex (mkPoint 0%R 0%R) e0 (mkPoint 0%R 1%R)
             (mkPoint 2%R 0%R) e1 (mkPoint (-1)%R 0%R) 1%R in
  cross (mkPoint (X v - X q0) (Y v - Y q0))%R e0 = 0%R /\
  cross (mkPoint (X v - X q1) (Y v - Y q1))%R e1 = 0%R.
Proof.
  exact (offsetVertex_on_offset_lines (mkPoint 0%R 0%R) (mkPoint 1%R 0%R)
           (mkPoint 0%R 1%R) (mkPoint 2%R 0%R) (mkPoint 0%R 1%R)
           (mkPoint (-1)%R 0%R) 1%R axes_not_parallel).
Defined.

Lemma edgeNormal_unit_perpendicular_witness :
  let nv := edgeNormal (mkPoint 0%R 0%R) (mkPoint 3%R 4%R) 1%R "outside" in
  (X nv * X nv + Y nv * Y nv = 1)%R /\
  (X nv * X (edgeDir (mkPoint 0%R 0%R) (mkPoint 3%R 4%R))
   + Y nv * Y (edgeDir (mkPoint 0%R 0%R) (mkPoint 3%R 4%R)) = 0)%R.
Proof.
  cbn zeta.
  destruct (edgeNormal_unit_perpendicular (mkPoint 0%R 0%R) (mkPoint 3%R 4%R)
              1%R "outside") as (Hunit & Hperp & _).
  - left. cbn. lra.
  - by split.
Defined.

(** ** The emitter: passes and compensation *)

Section Passes.
Context {K : Type} `{Float64 K}.




Lemma length_normalized_ge (points : list (Point K)) :
  length points <= length (normalized points) + 1.
Proof.
  unfold normalized. destruct points as [|first tl]; [cbn; lia|].
  destruct (list.last (first :: tl)); [|lia].
  destruct (almostEqualPoint _ _); [|lia].
  rewrite length_take. lia.
Qed.

(** The result of [offsetPolygon] has fewer than two points only when the
    input has. *)
Theorem offsetPolygon_short_result (points : list (Point K)) (delta : K)
    (mode : string) (result : list (Point K)) :
  offsetPolygon points delta mode = Some result ->
  (length result < 2 <-> length points < 2).
Proof.
  unfold offsetPolygon.
  destruct ((delta ==? fzero)%f64 || (Z.of_nat (length points) <? 3)%Z) eqn:Hearly.
  { by intros [= <-]. }
  apply orb_false_iff in Hearly as [Hdelta Hlen]. apply Z.ltb_ge in Hlen.
  assert (points <> []) as Hne by (intros ->; cbn in Hlen; lia).
  rewrite (dropClosing_normalized points Hne). cbn [mbind option_bind].
  pose proof (length_normalized_ge points) as Hge.
  set (poly := normalized points) in *.
  destruct (Z.ltb_spec (Z.of_nat (length poly)) 3) as [|Hn].
  { intros [= <-]. lia. }
  destruct (areaLoop_total poly) as [a Ha]; [lia|].
  rewrite Ha. cbn [mbind option_bind].
  destruct (fabs (a * fhalf)%f64 <? feps)%f64 eqn:Hbig.
  { intros [= <-]. lia. }
  destruct (edgeLoop_entries poly (a * fhalf)%f64 mode) as (dirs & norms & -> & Hentries);
    [lia|].
  cbn [mbind option_bind].
  destruct (vertexLoop_vertices poly dirs norms (a * fhalf)%f64 mode delta)
    as (vs & -> & Hvs & _); [lia|done|].
  cbn [mbind option_bind]. destruct vs as [|v0 vs]; [cbn in Hvs; lia|].
  intros [= <-]. cbn [app length] in *. rewrite ?length_app. cbn. lia.
Qed.

(** The compensation loop from any point on: it does not panic and appends
    to [compPaths]. *)
Lemma compensate_from (paths : list (Path K)) (radius : K) (mode : string)
    (compPaths : list (Path K)) :
  exists out,
    compensate paths radius mode compPaths = Some (compPaths ++ out) /\
    List.filter (fun p => negb (Closed p)) out
      = List.filter (fun p => negb (Closed p)) paths /\
    Stroke <$> out = Stroke <$> List.filter kept paths /\
    Closed <$> out = Closed <$> List.filter kept paths.
Proof.
  revert compPaths. induction paths as [|p paths IH]; intros compPaths.
  { exists []. by rewrite app_nil_r. }
  cbn [compensate List.filter].
  destruct (Closed p) eqn:Hclosed; cbn [negb].
  - assert (kept p = (2 <=? length (Points p))) as ->
      by (unfold kept; by rewrite Hclosed).
    destruct (offsetPolygon_total (Points p) radius mode) as [offsetPts Hoff].
    rewrite Hoff. cbn [mbind option_bind].
    pose proof (offsetPolygon_short_result _ _ _ _ Hoff) as Hshort.
    destruct (Z.ltb_spec (Z.of_nat (length offsetPts)) 2) as [Hlt|Hge].
    + destruct (Nat.leb_spec 2 (length (Points p))); [lia|]. apply IH.
    + destruct (Nat.leb_spec 2 (length (Points p))); [|lia].
      destruct (IH (compPaths ++ [mkPath offsetPts true (Stroke p)]))
        as (out & -> & Hopen & Hstroke & Hflag).
      exists (mkPath offsetPts true (Stroke p) :: out).
      rewrite <- app_assoc. split; [done|]. cbn.
      by rewrite Hopen, Hstroke, Hflag, Hclosed.
  - assert (kept p = true) as -> by (unfold kept; by rewrite Hclosed).
    destruct (IH (compPaths ++ [p])) as (out & -> & Hopen & Hstroke & Hflag).
    exists (p :: out). rewrite <- app_assoc. split; [done|].
    cbn. rewrite Hclosed. cbn. by rewrite Hopen, Hstroke, Hflag.
Qed.

(** The compensation loop does not panic.  It keeps the open paths as they
    are and in their order; of the closed paths it drops exactly those of
    fewer than two points, and every path it keeps or offsets has, at its
    place, the stroke and the closed flag of the input path. *)
Theorem compensate_keeps (paths : list (Path K)) (radius : K) (mode : string) :
  exists out,
    compensate paths radius mode [] = Some out /\
    List.filter (fun p => negb (Closed p)) out
      = List.filter (fun p => negb (Closed p)) paths /\
    Stroke <$> out = Stroke <$> List.filter kept paths /\
    Closed <$> out = Closed <$> List.filter kept paths.
Proof. exact (compensate_from paths radius mode []). Qed.

(** [writeGcode] never panics. *)
Theorem writeGcode_never_panics (fuel : nat) (paths : list (Path K)) (cfg : Config K) :
  (writeGcode fuel paths cfg).2 <> Panicked.
Proof.
  unfold writeGcode. destruct (_ >=? _)%f64; [done|].
  destruct (negb _ && _).
  - destruct (compensate_from paths (ToolDia cfg / ftwo / Scale cfg)%f64
                (Compensation cfg) []) as (out & -> & _).
    cbn [app]. destruct (pathLoop _ _ _ _ _ _) as [body [|]]; done.
  - destruct (pathLoop _ _ _ _ _ _) as [body [|]]; done.
Qed.

End Passes.

Lemma offsetPolygon_short_result_witness :
  length [Run.pt 0 0; Run.pt 1 0] < 2 <-> length Run.forthAndBack < 2.
Proof.
  exact (offsetPolygon_short_result Run.forthAndBack 1%float "inside" _ eq_refl).
Defined.

(** ** The emitter, over the reals: when the depth loop is left *)

Section PassesExact.
Local Open Scope R_scope.






End PassesExact.



(** ** Polygon offsetting, over the reals: the two sides *)

Section OffsetSides.
Local Open Scope R_scope.

Lemma offsetStart_opposite (p nv : Point R) (delta : R) :
  offsetStart p (mkPoint (- X nv) (- Y nv)) delta = offsetStart p nv (- delta).
Proof. unfold offsetStart. cbn. f_equal; ring. Qed.

Lemma offsetVertex_opposite (pPrev e0 n0v pCur e1 n1v : Point R) (delta : R) :
  offsetVertex pPrev e0 (mkPoint (- X n0v) (- Y n0v))
               pCur e1 (mkPoint (- X n1v) (- Y n1v)) delta
  = offsetVertex pPrev e0 n0v pCur e1 n1v (- delta).
Proof. unfold offsetVertex. by rewrite !offsetStart_opposite. Qed.

Lemma edgeNormal_outside (p0 p1 : Point R) (area : R) (mode : string) :
  mode <> "inside"%string ->
  edgeNormal p0 p1 area mode
  = mkPoint (- X (edgeNormal p0 p1 area "inside"))
            (- Y (edgeNormal p0 p1 area "inside")).
Proof.
  intros Hmode. apply String.eqb_neq in Hmode.
  unfold edgeNormal. by rewrite Hmode.
Qed.

(** Offsetting on the outside by [delta] is offsetting on the inside by
    [- delta]: for every mode other than "inside" the two calls return the
    same polyline. *)
Theorem offsetPolygon_outside_is_negative_inside (points : list (Point R))
    (delta : R) (mode : string) :
  mode <> "inside"%string ->
  offsetPolygon points delta mode = offsetPolygon points (- delta) "inside".
Proof.
  intros Hmode. unfold offsetPolygon.
  assert (((- delta)%R ==? fzero)%f64 = (delta ==? fzero)%f64) as ->.
  { cbn. unfold Exact.Reqb.
    destruct (Req_dec_T (- delta) 0), (Req_dec_T delta 0); try done; lra. }
  destruct (_ || _); [done|].
  destruct (dropClosing points _ 0 points []) as [poly|]; [|done].
  cbn [mbind option_bind].
  destruct (Z.ltb_spec (Z.of_nat (length poly)) 3) as [|Hn]; [done|].
  destruct (areaLoop poly _) as [a|]; [|done]. cbn [mbind option_bind].
  destruct (fabs (a * fhalf)%f64 <? feps)%f64; [done|].
  set (area := (a * fhalf)%f64).
  destruct (edgeLoop_entries poly area mode) as (dirs & norms & -> & Hent); [lia|].
  destruct (edgeLoop_entries poly area "inside") as (dirs' & norms' & -> & Hent');
    [lia|].
  cbn [mbind option_bind].
  destruct (vertexLoop_vertices poly dirs norms area mode delta)
    as (vs & -> & Hlen & Hall); [lia|done|].
  destruct (vertexLoop_vertices poly dirs' norms' area "inside" (- delta))
    as (vs' & -> & Hlen' & Hall'); [lia|done|].
  cbn [mbind option_bind].
  assert (vs = vs') as ->; [|done].
  apply list_eq_same_length with (length poly); [done..|].
  intros i v v' Hi Hv Hv'.
  destruct (Hall i Hi) as (w & Hw & (qa & qb & qc & Ha & Hb & Hc & ->)).
  destruct (Hall' i Hi) as (w' & Hw' & (ra & rb & rc & Ha' & Hb' & Hc' & ->)).
  cbn zeta in *. simplify_eq.
  rewrite !(edgeNormal_outside _ _ area mode Hmode).
  apply offsetVertex_opposite.
Qed.

End OffsetSides.

Lemma offsetPolygon_outside_is_negative_inside_witness :
  offsetPolygon [mkPoint 0%R 0%R; mkPoint 1%R 0%R; mkPoint 0%R 1%R] 1%R "outside"
  = offsetPolygon [mkPoint 0%R 0%R; mkPoint 1%R 0%R; mkPoint 0%R 1%R] (- 1)%R "inside".
Proof.
  apply offsetPolygon_outside_is_negative_inside. discriminate.
Defined.

(** ** Tokenising: what the tokens are *)

Section Tokens.
Local Open Scope string_scope.

















End Tokens.



(** ** Colours *)

Section ColourFacts.
Local Open Scope string_scope.















Lemma normalizeColor_empty : normalizeColor "" = "".
Proof. reflexivity. Qed.



(** [truncate] with a bound that is not negative does not panic; its
    result is at most three bytes longer than the bound, is [s] itself when
    [s] is within the bound, and otherwise begins with the first [n] bytes
    of [s]. *)
Theorem truncate_bounded (s : string) (n : Z) :
  (0 <= n)%Z ->
  exists r,
    truncate s n = Some r /\
    (Z.of_nat (String.length r) <= n + 3)%Z /\
    ((Z.of_nat (String.length s) <= n)%Z -> r = s) /\
    String.substring 0 (Z.to_nat n) r = String.substring 0 (Z.to_nat n) s.
Proof.
  intros Hn. unfold truncate.
  destruct (Z.leb_spec (Z.of_nat (String.length s)) n) as [Hle|Hgt].
  { exists s. split; [done|]. split; [lia|]. by split. }
  destruct (Z.ltb_spec n 0); [lia|].
  eexists. split; [done|].
  assert (forall (k : nat) (t u : string),
            k <= String.length t ->
            String.length (String.substring 0 k t ++ u) = k + String.length u /\
            String.substring 0 k (String.substring 0 k t ++ u) = String.substring 0 k t)
    as Hsub.
  { intros k. induction k as [|k IH]; intros t u Hk.
    - destruct t; cbn; by destruct u.
    - destruct t as [|c t]; [cbn in Hk; lia|]. cbn in Hk.
      destruct (IH t u) as [Hl Hs]; [lia|]. cbn. by rewrite Hl, Hs. }
  destruct (Hsub (Z.to_nat n) s "...") as [Hl Hs]; [lia|].
  rewrite Hl. cbn [String.length]. split; [lia|]. split; [lia|exact Hs].
Qed.

End ColourFacts.

Lemma truncate_bounded_witness :
  exists r,
    truncate "M0,0 L10,0 L10,10 Z" 4 = Some r /\
    (Z.of_nat (String.length r) <= 4 + 3)%Z /\
    ((Z.of_nat (String.length "M0,0 L10,0 L10,10 Z") <= 4)%Z
     -> r = "M0,0 L10,0 L10,10 Z"%string) /\
    String.substring 0 (Z.to_nat 4) r
      = String.substring 0 (Z.to_nat 4) "M0,0 L10,0 L10,10 Z".
Proof.
  apply (truncate_bounded "M0,0 L10,0 L10,10 Z" 4). lia.
Defined.
